(** * PassMan icon generator: [create_icons.py]

    A shallow embedding of the script that renders the four extension icons
    (a white padlock on a blue square) and of the properties its
    specification states about it.

    Conventions of the embedding.
    - Python integers are [Z]; [//] is [Z.div] (floor division).
    - A finite Python [float] is a rational number, so floats are carried
      as [Q] and the arithmetic on them is exact: [size / 24] is the ratio
      itself, as the specification reads it.  [Binary64] repeats the
      computations on IEEE 754 doubles; [binary64_exact] checks that the
      two agree on every integer the script computes, for the sizes 1
      to 256.
    - [int(x)] rounds towards zero.
    - [math.cos], [math.sin], [math.radians] and the line rasteriser of
      Pillow are library code; they are parameters of the development
      ([math_module], [imaging]).  [Reference] gives instances of them
      with which the renderer can be evaluated.
    - [Image.new], [ImageDraw.rectangle] and [Image.save] follow their
      documented behaviour: a canvas filled with one colour, an inclusive
      clipped box, one file written.  The encoding of a saved image into
      the bytes of a PNG file is not modelled: a [Save] event records the
      image and the format handed to the encoder.
    - Exceptions are values of [exn]; the effects on the file system and
      on standard output are recorded, in order, in a trace of [event]s. *)

From Stdlib Require Import ZArith QArith Qround Qabs Lia Floats Uint63.
From stdpp Require Import base tactics option list strings pretty gmap.

Local Open Scope Z_scope.

(** ** Python numbers *)

(** [int(x)] on a float: truncation towards zero. *)
Definition int (x : Q) : Z := Z.quot (Qnum x) (Zpos (Qden x)).

(** [range(start, stop, step)] for a positive step. *)
Definition range (start stop step : Z) : list Z :=
  (λ i, start + step * i) <$> seqZ 0 ((stop - start + step - 1) `div` step).

(** ** Pillow images *)

(** A colour is the 4-tuple the script passes: red, green, blue, alpha. *)
Definition rgba : Type := Z * Z * Z * Z.

(** An image: its mode, its size (width, height) and its rows of pixels,
    top row first. *)
Record image : Type := Image {
  im_mode : string;
  im_size : Z * Z;
  im_rows : list (list rgba)
}.

Inductive exn : Type :=
  | ValueError (msg : string)
  | OSError (path : string).

Inductive result (A : Type) : Type :=
  | Ok (a : A)
  | Raise (e : exn).
Arguments Ok {A} a.
Arguments Raise {A} e.

#[global] Instance result_ret : MRet result := λ A a, Ok a.
#[global] Instance result_bind : MBind result := λ A B f m,
  match m with
  | Ok a => f a
  | Raise e => Raise e
  end.

(** [Image.new(mode, size, color)]: negative dimensions are rejected. *)
Definition Image_new (mode : string) (size : Z * Z) (color : rgba) : result image :=
  let '(w, h) := size in
  if (w <? 0) || (h <? 0) then Raise (ValueError "Width and height must be >= 0")
  else Ok (Image mode size (replicate (Z.to_nat h) (replicate (Z.to_nat w) color))).

(** The pixel at column [x], row [y]; [None] outside the canvas. *)
Definition pixel_at (img : image) (x y : Z) : option rgba :=
  if (0 <=? x) && (0 <=? y) then
    row ← im_rows img !! Z.to_nat y; row !! Z.to_nat x
  else None.

(** Every pixel of the canvas selected by [mask] takes the colour [fill];
    coordinates outside the canvas are clipped away. *)
Definition paint (mask : Z → Z → bool) (fill : rgba) (img : image) : image :=
  Image (im_mode img) (im_size img)
    (imap (λ j row,
       imap (λ i p, if mask (Z.of_nat i) (Z.of_nat j) then fill else p) row)
       (im_rows img)).

(** A box [[x0, y0, x1, y1]] or a segment [[x1, y1, x2, y2]]. *)
Definition coords : Type := Z * Z * Z * Z.

Definition rectangle_mask (xy : coords) (x y : Z) : bool :=
  let '(x0, y0, x1, y1) := xy in
  (x0 <=? x) && (x <=? x1) && (y0 <=? y) && (y <=? y1).

(** [draw.rectangle(xy, fill=fill)]: the box includes both corners; a box
    whose second corner lies before the first is rejected. *)
Definition rectangle (img : image) (xy : coords) (fill : rgba) : result image :=
  let '(x0, y0, x1, y1) := xy in
  if x1 <? x0 then Raise (ValueError "x1 must be greater than or equal to x0")
  else if y1 <? y0 then Raise (ValueError "y1 must be greater than or equal to y0")
  else Ok (paint (rectangle_mask xy) fill img).

(** The part of Pillow that is taken as given: which pixels a stroked
    segment of a given width covers. *)
Record imaging : Type := Imaging {
  line_mask : coords → Z → Z → Z → bool
}.

(** [draw.line(xy, fill=fill, width=width)]. *)
Definition line (pil : imaging) (img : image) (xy : coords) (fill : rgba) (width : Z) : image :=
  paint (line_mask pil xy width) fill img.

(** The functions imported from [math]. *)
Record math_module : Type := Math {
  cos : Q → Q;
  sin : Q → Q;
  radians : Q → Q
}.

(** ** Effects of the script *)

(** What a run does to the outside world, in the order it happens. *)
Inductive event : Type :=
  | Makedirs (path : string)
  | Save (path : string) (format : string) (img : image)
  | Print (text : string).

(** What the operating system answers when asked to create a directory
    or to open a file for writing. *)
Record environment : Type := Environment {
  can_makedirs : string → bool;
  can_write : string → bool
}.

(** A statement of the script: it extends the trace of the run so far and
    either returns a value or raises. *)
Definition script (A : Type) : Type := list event → result A * list event.

#[global] Instance script_ret : MRet script := λ A a t, (Ok a, t).
#[global] Instance script_bind : MBind script := λ A B f m t,
  match m t with
  | (Ok a, t') => f a t'
  | (Raise e, t') => (Raise e, t')
  end.

(** A pure computation used as a statement. *)
Definition lift {A : Type} (r : result A) : script A := λ t, (r, t).

(** [for x in xs: body(x)] *)
Fixpoint for_each {A : Type} (xs : list A) (body : A → script unit) : script unit :=
  match xs with
  | [] => mret ()
  | x :: xs' => body x;; for_each xs' body
  end.

(** [str(n)], as an f-string formats an integer. *)
Definition str (n : Z) : string := pretty n.

(** [print(text)] *)
Definition print (text : string) : script unit := λ t, (Ok (), t ++ [Print text]).

(** The lines written to standard output and the files saved by a trace. *)
Definition stdout (t : list event) : list string :=
  omap (λ e, match e with Print s => Some s | _ => None end) t.

Definition saved (t : list event) : list (string * string * image) :=
  omap (λ e, match e with Save p f img => Some (p, f, img) | _ => None end) t.

Section Script.

Context (math : math_module) (pil : imaging) (env : environment).

(** [os.makedirs(path, exist_ok=True)] *)
Definition makedirs (path : string) : script unit := λ t,
  if can_makedirs env path then (Ok (), t ++ [Makedirs path])
  else (Raise (OSError path), t).

(** [img.save(filename, format)] *)
Definition save (img : image) (filename format : string) : script unit := λ t,
  if can_write env filename then (Ok (), t ++ [Save filename format img])
  else (Raise (OSError filename), t).

(** *** The locals of [create_icon] *)

Definition scale (size : Z) : Q := inject_Z size / 24.

Definition lock_width (size : Z) : Z := int (10 * scale size).
Definition lock_height (size : Z) : Z := int (8 * scale size).
Definition lock_x (size : Z) : Z := (size - lock_width size) `div` 2.
Definition lock_y (size : Z) : Z := size `div` 2.

Definition shackle_center_x (size : Z) : Z := size `div` 2.
Definition shackle_center_y (size : Z) : Z := lock_y size - int (2 * scale size).
Definition shackle_radius (size : Z) : Z := int (4 * scale size).

(** The end points computed by one turn of the loop over [angle]. *)
Definition shackle_segment (size angle : Z) : coords :=
  let a := radians math (inject_Z angle) in
  let x1 := shackle_center_x size + int (inject_Z (shackle_radius size) * cos math a) in
  let y1 := shackle_center_y size + int (inject_Z (shackle_radius size) * sin math a) in
  let x2 := shackle_center_x size + int (inject_Z (shackle_radius size - 2) * cos math a) in
  let y2 := shackle_center_y size + int (inject_Z (shackle_radius size - 2) * sin math a) in
  (x1, y1, x2, y2).

(** The drawing done by [create_icon], up to the call of [save].  The
    image and the [ImageDraw] object made from it are one mutable canvas;
    here each drawing call returns the canvas it leaves. *)
Definition render (size : Z) : result image :=
  img ← Image_new "RGBA" (size, size) (59, 130, 246, 255);
  img ← rectangle img
          (lock_x size, lock_y size,
           lock_x size + lock_width size, lock_y size + lock_height size)
          (255, 255, 255, 255);
  mret (foldl
          (λ img angle,
             line pil img (shackle_segment size angle) (255, 255, 255, 255)
               (Z.max 1 (int (scale size))))
          img (range 180 361 10)).

Definition create_icon (size : Z) (filename : string) : script unit :=
  img ← lift (render size);
  save img filename "PNG".

(** *** The body of the script *)

Definition sizes : list Z := [16; 32; 48; 128].

(** One turn of the loop over [sizes]. *)
Definition loop_body (size : Z) : script unit :=
  create_icon size ("extension/icons/icon" +:+ str size +:+ ".png");;
  print ("Created icon" +:+ str size +:+ ".png").

Definition main : script unit :=
  makedirs "extension/icons";;
  for_each sizes loop_body;;
  print "All icons created successfully!".

End Script.

(** ** Views of the renderer used to state its properties *)

Definition background : rgba := (59, 130, 246, 255).
Definition white : rgba := (255, 255, 255, 255).

(** The box passed to [draw.rectangle]. *)
Definition lock_box (size : Z) : coords :=
  (lock_x size, lock_y size,
   lock_x size + lock_width size, lock_y size + lock_height size).

(** The stroke width passed to [draw.line]. *)
Definition stroke_width (size : Z) : Z := Z.max 1 (int (scale size)).

(** Whether some drawing call of [create_icon] covers the pixel (x, y). *)
Definition covered (math : math_module) (pil : imaging) (size x y : Z) : bool :=
  rectangle_mask (lock_box size) x y
  || existsb
       (λ angle, line_mask pil (shackle_segment math size angle) (stroke_width size) x y)
       (range 180 361 10).

(** The stroke for the [k]-th angle [180 + 10 k] with every offset the
    floor of its product: centre [(size // 2, lock_y - floor (2 scale))],
    outer radius [floor (4 scale)], inner radius two less. *)
Definition floor_segment (math : math_module) (size k : Z) : coords :=
  let s := (inject_Z size / 24)%Q in
  let cx := size `div` 2 in
  let cy := size `div` 2 - Qfloor (2 * s) in
  let r := Qfloor (4 * s) in
  let a := radians math (inject_Z (180 + 10 * k)) in
  (cx + Qfloor (inject_Z r * cos math a), cy + Qfloor (inject_Z r * sin math a),
   cx + Qfloor (inject_Z (r - 2) * cos math a),
   cy + Qfloor (inject_Z (r - 2) * sin math a)).

(** The same stroke with every offset truncated towards zero. *)
Definition truncated_segment (math : math_module) (size k : Z) : coords :=
  let s := (inject_Z size / 24)%Q in
  let cx := size `div` 2 in
  let cy := size `div` 2 - Qfloor (2 * s) in
  let r := Qfloor (4 * s) in
  let a := radians math (inject_Z (180 + 10 * k)) in
  (cx + int (inject_Z r * cos math a), cy + int (inject_Z r * sin math a),
   cx + int (inject_Z (r - 2) * cos math a),
   cy + int (inject_Z (r - 2) * sin math a)).

(** ** Views of a run *)

(** The files a run asks to write. *)
Definition icon_paths : list string :=
  [ "extension/icons/icon16.png"; "extension/icons/icon32.png";
    "extension/icons/icon48.png"; "extension/icons/icon128.png" ].

(** The environment grants every request of the script. *)
Definition granted (env : environment) : bool :=
  can_makedirs env "extension/icons" && forallb (can_write env) icon_paths.

(** The events of a complete run, given the four images. *)
Definition complete_run (i16 i32 i48 i128 : image) : list event :=
  [ Makedirs "extension/icons";
    Save "extension/icons/icon16.png" "PNG" i16; Print "Created icon16.png";
    Save "extension/icons/icon32.png" "PNG" i32; Print "Created icon32.png";
    Save "extension/icons/icon48.png" "PNG" i48; Print "Created icon48.png";
    Save "extension/icons/icon128.png" "PNG" i128; Print "Created icon128.png";
    Print "All icons created successfully!" ].



(** What a path holds. *)
Inductive node : Type :=
  | Dir
  | File (format : string) (img : image).

(** The directories [os.makedirs(path)] leaves in place: every prefix of
    [path] that ends before a slash, and [path] itself. *)
Fixpoint ancestors_from (prefix rest : string) : list string :=
  match rest with
  | EmptyString => [prefix]
  | String c rest' =>
      if String.eqb (String c EmptyString) "/"
      then prefix :: ancestors_from (prefix +:+ "/") rest'
      else ancestors_from (prefix +:+ String c EmptyString) rest'
  end.

Definition ancestors (path : string) : list string := ancestors_from "" path.

(** What an event that took place says of the file system: after
    [makedirs] the path and the directories above it are directories,
    after [save] the path is a file with the image saved, a later event
    on a path replacing what an earlier one left there. *)
Definition write_file (fs : gmap string node) (e : event) : gmap string node :=
  match e with
  | Makedirs path => foldr (λ d fs, <[d := Dir]> fs) fs (ancestors path)
  | Save path format img => <[path := File format img]> fs
  | Print _ => fs
  end.

(** The file system a trace leaves behind, as far as the trace tells. *)
Definition file_system (t : list event) : gmap string node :=
  foldl write_file ∅ t.


(** Assumptions on the library parameters. *)

(** Cosine and sine stay within [-1, 1]. *)
Definition bounded_trig (math : math_module) : Prop :=
  ∀ x, (-1 <= cos math x <= 1)%Q ∧ (-1 <= sin math x <= 1)%Q.

(** A stroke of width [w >= 1] stays within [w] pixels of the bounding box
    of its end points. *)
Definition local_lines (pil : imaging) : Prop :=
  ∀ x1 y1 x2 y2 w x y, 1 <= w →
    line_mask pil (x1, y1, x2, y2) w x y = true →
    Z.min x1 x2 - w <= x <= Z.max x1 x2 + w ∧
    Z.min y1 y2 - w <= y <= Z.max y1 y2 + w.

(** ** The arithmetic of the script in binary64

    The same computations carried out on IEEE 754 double precision
    numbers, as the interpreter performs them.  The properties below are
    stated on the exact model; [Binary64] serves to check, size by size,
    that rounding does not change any integer the script computes. *)

Module Binary64.

(** Conversion of a Python integer to a float, for integers below 2^63
    in magnitude (exact below 2^53). *)
Definition of_int (n : Z) : float :=
  if n <? 0 then PrimFloat.opp (PrimFloat.of_uint63 (Uint63.of_Z (- n)))
  else PrimFloat.of_uint63 (Uint63.of_Z n).

(** [int(x)]: truncation towards zero; raises on infinities and NaN. *)
Definition int (x : float) : option Z :=
  match Prim2SF x with
  | S754_zero _ => Some 0
  | S754_finite s m e =>
      let a := if 0 <=? e then Z.shiftl (Zpos m) e else Z.shiftr (Zpos m) (- e) in
      Some (if s then - a else a)
  | S754_infinity _ | S754_nan => None
  end.

(** The rational number a finite float denotes. *)
Definition to_Q (x : float) : Q :=
  match Prim2SF x with
  | S754_finite s m e =>
      let a := if 0 <=? e then inject_Z (Zpos m * 2 ^ e)
               else Zpos m # Z.to_pos (2 ^ (- e)) in
      if s then Qopp a else a
  | _ => 0%Q
  end.

(** [math.pi] *)
Definition pi : float := 0x1.921fb54442d18p+1%float.

(** [math.radians(x)] is [x * (pi / 180)]. *)
Definition radians (x : float) : float := (x * (pi / 180))%float.

(** An entry of the table of cosines and sines: an angle in degrees, its
    radian measure [math.radians(degrees)], and the values [math.cos] and
    [math.sin] of the C library at that argument. *)
Record trig_entry : Type := Trig {
  degrees : Z;
  argument : float;
  cosine : float;
  sine : float
}.

(** The nineteen angles of the script. *)
Definition trig_table : list trig_entry :=
  [
    Trig 180 0x1.921fb54442d18p+1 (-0x1.0000000000000p+0) 0x1.1a62633145c07p-53;
    Trig 190 0x1.a876cd8f2a161p+1 (-0x1.f838b8c811c17p-1) (-0x1.63a1a7e0b738ep-3);
    Trig 200 0x1.becde5da115a9p+1 (-0x1.e11f642522d1cp-1) (-0x1.5e3a8748a0bf4p-2);
    Trig 210 0x1.d524fe24f89f2p+1 (-0x1.bb67ae8584caap-1) (-0x1.0000000000001p-1);
    Trig 220 0x1.eb7c166fdfe3ap+1 (-0x1.8836fa2cf5039p-1) (-0x1.491b7523c161cp-1);
    Trig 230 0x1.00e9975d63941p+2 (-0x1.491b7523c161ep-1) (-0x1.8836fa2cf5038p-1);
    Trig 240 0x1.0c152382d7365p+2 (-0x1.0000000000004p-1) (-0x1.bb67ae8584ca8p-1);
    Trig 250 0x1.1740afa84ad8ap+2 (-0x1.5e3a8748a0bf2p-2) (-0x1.e11f642522d1cp-1);
    Trig 260 0x1.226c3bcdbe7aep+2 (-0x1.63a1a7e0b7389p-3) (-0x1.f838b8c811c17p-1);
    Trig 270 0x1.2d97c7f3321d2p+2 (-0x1.a79394c9e8a0ap-53) (-0x1.0000000000000p+0);
    Trig 280 0x1.38c35418a5bf6p+2 0x1.63a1a7e0b737cp-3 (-0x1.f838b8c811c18p-1);
    Trig 290 0x1.43eee03e1961bp+2 0x1.5e3a8748a0bfap-2 (-0x1.e11f642522d1bp-1);
    Trig 300 0x1.4f1a6c638d03fp+2 0x1.0000000000001p-1 (-0x1.bb67ae8584caap-1);
    Trig 310 0x1.5a45f88900a63p+2 0x1.491b7523c161cp-1 (-0x1.8836fa2cf503ap-1);
    Trig 320 0x1.657184ae74487p+2 0x1.8836fa2cf5037p-1 (-0x1.491b7523c161fp-1);
    Trig 330 0x1.709d10d3e7eabp+2 0x1.bb67ae8584ca8p-1 (-0x1.0000000000004p-1);
    Trig 340 0x1.7bc89cf95b8d0p+2 0x1.e11f642522d1cp-1 (-0x1.5e3a8748a0bf3p-2);
    Trig 350 0x1.86f4291ecf2f4p+2 0x1.f838b8c811c17p-1 (-0x1.63a1a7e0b738bp-3);
    Trig 360 0x1.921fb54442d18p+2 0x1.0000000000000p+0 (-0x1.1a62633145c07p-52) ].

(** The table entry for the argument [x]. *)
Definition table_at (x : float) : option trig_entry :=
  List.find (λ e, PrimFloat.eqb (argument e) x) trig_table.

Definition cos (x : float) : float := from_option cosine nan (table_at x).
Definition sin (x : float) : float := from_option sine nan (table_at x).

Definition scale (size : Z) : float := (of_int size / of_int 24)%float.

Definition lock_width (size : Z) : option Z := int (of_int 10 * scale size).
Definition lock_height (size : Z) : option Z := int (of_int 8 * scale size).
Definition shackle_center_y (size : Z) : option Z :=
  d ← int (of_int 2 * scale size); Some (size `div` 2 - d).
Definition shackle_radius (size : Z) : option Z := int (of_int 4 * scale size).
Definition stroke_width (size : Z) : option Z := Z.max 1 <$> int (scale size).

Definition shackle_segment (size angle : Z) : option coords :=
  cy ← shackle_center_y size;
  r ← shackle_radius size;
  let cx := size `div` 2 in
  let a := radians (of_int angle) in
  dx1 ← int (of_int r * cos a);
  dy1 ← int (of_int r * sin a);
  dx2 ← int (of_int (r - 2) * cos a);
  dy2 ← int (of_int (r - 2) * sin a);
  Some (cx + dx1, cy + dy1, cx + dx2, cy + dy2).

End Binary64.

(** ** Reference instances of the library parameters *)

Module Reference.

(** [math.pi], the binary64 number nearest to pi. *)
Definition pi : Q := 884279719003555 # 281474976710656.

(** [math.radians(x)] is [x * (pi / 180)]. *)
Definition radians (x : Q) : Q := x * (pi / 180).

(** The whole number of degrees nearest to [x] radians; 57.29578 is
    180 / pi to seven digits, which separates the angles of the table. *)
Definition degrees_of (x : Q) : Z := Qfloor (x * (5729578 # 100000) + (1 # 2)).

(** The binary64 numbers of [Binary64.trig_table], read as fractions. *)
Definition trig_table : list (Z * (Q * Q)) :=
  Eval vm_compute in
    (λ e, (Binary64.degrees e,
           (Binary64.to_Q (Binary64.cosine e), Binary64.to_Q (Binary64.sine e))))
    <$> Binary64.trig_table.

Fixpoint assoc (a : Z) (table : list (Z * (Q * Q))) : option (Q * Q) :=
  match table with
  | [] => None
  | (a', v) :: table' => if a =? a' then Some v else assoc a table'
  end.

(** Outside the table the value is immaterial; it is taken to be 0. *)
Definition cos (x : Q) : Q := from_option fst 0%Q (assoc (degrees_of x) trig_table).
Definition sin (x : Q) : Q := from_option snd 0%Q (assoc (degrees_of x) trig_table).

Definition math : math_module := Math cos sin radians.

(** An idealised stroke: the pixels whose centre lies within half the
    width of the segment (squared distances, cleared of denominators),
    inside the bounding box of the segment grown by the width. *)
Definition stroke_mask (xy : coords) (width x y : Z) : bool :=
  let '(x1, y1, x2, y2) := xy in
  let dx := x2 - x1 in
  let dy := y2 - y1 in
  let vx := x - x1 in
  let vy := y - y1 in
  let t := vx * dx + vy * dy in
  let len2 := dx * dx + dy * dy in
  (Z.min x1 x2 - width <=? x) && (x <=? Z.max x1 x2 + width)
  && (Z.min y1 y2 - width <=? y) && (y <=? Z.max y1 y2 + width)
  && (if t <=? 0 then 4 * (vx * vx + vy * vy) <=? width * width
      else if len2 <=? t then
        4 * ((x - x2) * (x - x2) + (y - y2) * (y - y2)) <=? width * width
      else 4 * ((vx * vx + vy * vy) * len2 - t * t) <=? width * width * len2).

Definition pil : imaging := Imaging stroke_mask.

(** An operating system that grants every request. *)
Definition permissive : environment := Environment (λ _, true) (λ _, true).

End Reference.

(** Whether, at a given size, the binary64 evaluation yields the integers
    of the exact model, for the locals and for every segment. *)
Definition binary64_agrees (size : Z) : bool :=
  bool_decide (Binary64.lock_width size = Some (lock_width size))
  && bool_decide (Binary64.lock_height size = Some (lock_height size))
  && bool_decide (Binary64.shackle_center_y size = Some (shackle_center_y size))
  && bool_decide (Binary64.shackle_radius size = Some (shackle_radius size))
  && bool_decide (Binary64.stroke_width size = Some (stroke_width size))
  && forallb
       (λ angle,
          bool_decide (Binary64.shackle_segment size angle
                       = Some (shackle_segment Reference.math size angle)))
       (range 180 361 10).

(** * Properties *)

(** ** Truncation *)

Lemma int_nonneg (x : Q) : (0 <= x)%Q → int x = Qfloor x.
Proof.
  destruct x as [n d]. unfold Qle, int, Qfloor. simpl. intros H.
  apply Z.quot_div_nonneg; lia.
Qed.

Lemma int_scale (k size : Z) :
  int (inject_Z k * scale size) = Z.quot (k * size) 24.
Proof. unfold int, scale. simpl. f_equal. lia. Qed.

Lemma scale_nonneg (k size : Z) :
  0 <= k → 0 <= size → (0 <= inject_Z k * scale size)%Q.
Proof. unfold Qle, scale. simpl. nia. Qed.

Lemma int_scale_div (k size : Z) :
  0 <= k → 0 <= size → int (inject_Z k * scale size) = (k * size) `div` 24.
Proof. intros. rewrite int_scale. apply Z.quot_div_nonneg; lia. Qed.

Lemma int_scale1 (size : Z) : int (scale size) = Z.quot size 24.
Proof. unfold int, scale. simpl. f_equal. lia. Qed.

Lemma lock_width_div (size : Z) : 0 <= size → lock_width size = (10 * size) `div` 24.
Proof. intros. apply (int_scale_div 10); lia. Qed.

Lemma lock_height_div (size : Z) : 0 <= size → lock_height size = (8 * size) `div` 24.
Proof. intros. apply (int_scale_div 8); lia. Qed.

Lemma shackle_radius_div (size : Z) : 0 <= size → shackle_radius size = (4 * size) `div` 24.
Proof. intros. apply (int_scale_div 4); lia. Qed.

Lemma shackle_center_y_div (size : Z) :
  0 <= size → shackle_center_y size = size `div` 2 - (2 * size) `div` 24.
Proof.
  intros. unfold shackle_center_y, lock_y. f_equal. apply (int_scale_div 2); lia.
Qed.



(** ** Canvas *)

Lemma Ok_inj {A : Type} (a b : A) : Ok a = Ok b → a = b.
Proof. congruence. Qed.

Lemma pixel_at_paint (mask : Z → Z → bool) (fill : rgba) (img : image) (x y : Z) :
  pixel_at (paint mask fill img) x y
  = (λ p, if mask x y then fill else p) <$> pixel_at img x y.
Proof.
  unfold pixel_at, paint. simpl.
  destruct (0 <=? x) eqn:Hx; destruct (0 <=? y) eqn:Hy; simpl; try reflexivity.
  apply Z.leb_le in Hx, Hy.
  rewrite list_lookup_imap.
  destruct (im_rows img !! Z.to_nat y) as [row|]; simpl; [|reflexivity].
  rewrite list_lookup_imap, !Z2Nat.id by assumption. reflexivity.
Qed.

Lemma pixel_at_new (mode : string) (w h : Z) (color : rgba) (img : image) (x y : Z) :
  Image_new mode (w, h) color = Ok img →
  pixel_at img x y
  = if (0 <=? x) && (x <? w) && (0 <=? y) && (y <? h) then Some color else None.
Proof.
  unfold Image_new. destruct ((w <? 0) || (h <? 0)) eqn:Hneg; [discriminate|].
  intros [= <-]. unfold pixel_at. simpl.
  destruct (0 <=? x) eqn:Hx; simpl; [|reflexivity].
  destruct (0 <=? y) eqn:Hy; simpl; [|destruct (x <? w); reflexivity].
  apply Z.leb_le in Hx, Hy.
  destruct (y <? h) eqn:Hyh.
  - apply Z.ltb_lt in Hyh.
    rewrite lookup_replicate_2 by lia. simpl.
    destruct (x <? w) eqn:Hxw; simpl.
    + apply Z.ltb_lt in Hxw. apply lookup_replicate_2. lia.
    + apply Z.ltb_ge in Hxw. apply lookup_replicate_None. lia.
  - apply Z.ltb_ge in Hyh.
    rewrite (proj1 (lookup_replicate_None _ _ _)) by lia.
    simpl. destruct (x <? w); reflexivity.
Qed.

Lemma Image_new_ok (mode : string) (w h : Z) (color : rgba) :
  0 <= w → 0 <= h →
  Image_new mode (w, h) color
  = Ok (Image mode (w, h) (replicate (Z.to_nat h) (replicate (Z.to_nat w) color))).
Proof.
  intros Hw Hh. unfold Image_new.
  destruct (w <? 0) eqn:E1; [apply Z.ltb_lt in E1; lia|].
  destruct (h <? 0) eqn:E2; [apply Z.ltb_lt in E2; lia|]. reflexivity.
Qed.

Lemma rectangle_ok (img : image) (x0 y0 x1 y1 : Z) (fill : rgba) :
  x0 <= x1 → y0 <= y1 →
  rectangle img (x0, y0, x1, y1) fill
  = Ok (paint (rectangle_mask (x0, y0, x1, y1)) fill img).
Proof.
  intros Hx Hy. unfold rectangle.
  destruct (x1 <? x0) eqn:E1; [apply Z.ltb_lt in E1; lia|].
  destruct (y1 <? y0) eqn:E2; [apply Z.ltb_lt in E2; lia|]. reflexivity.
Qed.

Lemma paint_mode mask fill img : im_mode (paint mask fill img) = im_mode img.
Proof. reflexivity. Qed.

Lemma paint_size mask fill img : im_size (paint mask fill img) = im_size img.
Proof. reflexivity. Qed.

(** ** The renderer, pixel by pixel *)

Section Render.

Context (math : math_module) (pil : imaging).

Lemma lock_width_nonneg (size : Z) : 0 <= size → 0 <= lock_width size.
Proof. intros. rewrite lock_width_div by lia. apply Z.div_pos; lia. Qed.

Lemma lock_height_nonneg (size : Z) : 0 <= size → 0 <= lock_height size.
Proof. intros. rewrite lock_height_div by lia. apply Z.div_pos; lia. Qed.

(** The canvas the loop starts from: the background with the lock body. *)
Lemma render_ok (size : Z) :
  0 <= size →
  render math pil size
  = Ok (foldl
          (λ img angle,
             line pil img (shackle_segment math size angle) white (stroke_width size))
          (paint (rectangle_mask (lock_box size)) white
             (Image "RGBA" (size, size)
                (replicate (Z.to_nat size) (replicate (Z.to_nat size) background))))
          (range 180 361 10)).
Proof.
  intros Hsize. unfold render.
  rewrite Image_new_ok by assumption.
  pose proof (lock_width_nonneg size Hsize).
  pose proof (lock_height_nonneg size Hsize).
  unfold mbind at 1, result_bind at 1.
  rewrite rectangle_ok by lia. reflexivity.
Qed.

Lemma pixel_at_lines (seg : Z → coords) (fill : rgba) (w : Z) (angles : list Z)
    (img : image) (x y : Z) :
  pixel_at (foldl (λ img angle, line pil img (seg angle) fill w) img angles) x y
  = (λ p, if existsb (λ angle, line_mask pil (seg angle) w x y) angles then fill else p)
    <$> pixel_at img x y.
Proof.
  revert img. induction angles as [|a angles IH]; intros img; simpl.
  - destruct (pixel_at img x y); reflexivity.
  - rewrite IH. unfold line. rewrite pixel_at_paint.
    destruct (pixel_at img x y) as [p|]; simpl; [|reflexivity].
    destruct (line_mask pil (seg a) w x y); simpl; [|reflexivity].
    destruct (existsb _ angles); reflexivity.
Qed.

(** Inside the canvas a pixel is white when some drawing call covers it
    and keeps the background colour otherwise. *)
Lemma pixel_at_render (size : Z) (img : image) (x y : Z) :
  0 <= size →
  render math pil size = Ok img →
  pixel_at img x y
  = if (0 <=? x) && (x <? size) && (0 <=? y) && (y <? size)
    then Some (if covered math pil size x y then white else background)
    else None.
Proof.
  intros Hsize. rewrite render_ok by assumption.
  intros Himg. apply Ok_inj in Himg. subst img.
  rewrite (pixel_at_lines (shackle_segment math size) white (stroke_width size)).
  rewrite pixel_at_paint.
  rewrite (pixel_at_new "RGBA" size size background
             (Image "RGBA" (size, size)
                (replicate (Z.to_nat size) (replicate (Z.to_nat size) background))))
    by (apply Image_new_ok; assumption).
  unfold covered.
  generalize (existsb
    (λ angle, line_mask pil (shackle_segment math size angle) (stroke_width size) x y)
    (range 180 361 10)).
  intros e.
  destruct ((0 <=? x) && (x <? size) && (0 <=? y) && (y <? size)); [|reflexivity].
  destruct (rectangle_mask (lock_box size) x y), e; reflexivity.
Qed.

Lemma render_mode_size (size : Z) (img : image) :
  0 <= size → render math pil size = Ok img →
  im_mode img = "RGBA" ∧ im_size img = (size, size).
Proof.
  intros Hsize. rewrite render_ok by assumption.
  intros Himg. apply Ok_inj in Himg. subst img.
  generalize (range 180 361 10). intros angles.
  match goal with |- context [foldl ?f ?i angles] =>
    enough (∀ i0, im_mode i0 = "RGBA" ∧ im_size i0 = (size, size) →
                  im_mode (foldl f i0 angles) = "RGBA" ∧ im_size (foldl f i0 angles) = (size, size))
      as Hgen by (apply Hgen; split; reflexivity)
  end.
  induction angles as [|a angles IH]; intros i0 Hi0; simpl; [exact Hi0|].
  apply IH. exact Hi0.
Qed.

End Render.

(** ** The lock body *)

Lemma lock_box_bounds (size : Z) :
  0 < size →
  0 <= lock_x size ∧ 0 <= lock_y size ∧
  lock_x size + lock_width size <= size - 1 ∧
  lock_y size + lock_height size <= size - 1.
Proof.
  intros Hsize. unfold lock_x, lock_y.
  rewrite lock_width_div, lock_height_div by lia.
  pose proof (Z.div_mod (10 * size) 24 ltac:(lia)) as Hw.
  pose proof (Z.mod_pos_bound (10 * size) 24 ltac:(lia)) as Hw'.
  pose proof (Z.div_mod (8 * size) 24 ltac:(lia)) as Hh.
  pose proof (Z.mod_pos_bound (8 * size) 24 ltac:(lia)) as Hh'.
  set (w := (10 * size) `div` 24) in *. set (h := (8 * size) `div` 24) in *.
  pose proof (Z.div_mod (size - w) 2 ltac:(lia)) as Hx.
  pose proof (Z.mod_pos_bound (size - w) 2 ltac:(lia)) as Hx'.
  pose proof (Z.div_mod size 2 ltac:(lia)) as Hy.
  pose proof (Z.mod_pos_bound size 2 ltac:(lia)) as Hy'.
  lia.
Qed.

Lemma rectangle_mask_true (x0 y0 x1 y1 x y : Z) :
  rectangle_mask (x0, y0, x1, y1) x y = true ↔ x0 <= x <= x1 ∧ y0 <= y <= y1.
Proof.
  unfold rectangle_mask. rewrite !andb_true_iff, !Z.leb_le. lia.
Qed.

Lemma lock_box_in_canvas (size x y : Z) :
  0 < size → rectangle_mask (lock_box size) x y = true →
  0 <= x < size ∧ 0 <= y < size.
Proof.
  intros Hsize Hmask. unfold lock_box in Hmask.
  apply rectangle_mask_true in Hmask.
  destruct (lock_box_bounds size Hsize) as (Hx & Hy & Hxw & Hyh).
  pose proof (lock_width_nonneg size ltac:(lia)).
  pose proof (lock_height_nonneg size ltac:(lia)).
  lia.
Qed.

(** C10.  For every positive size the lock body lies inside the canvas:
    [0 <= lock_x], [lock_x + lock_width <= size - 1] and
    [lock_y + lock_height <= size - 1], because the width is at most
    [10 size / 24] and the height at most [8 size / 24]; hence every pixel
    the rectangle fill addresses is a pixel of the size-by-size buffer. *)
Theorem lock_body_within_canvas (size : Z) :
  0 < size →
  0 <= lock_x size ∧
  lock_x size + lock_width size <= size - 1 ∧
  lock_y size + lock_height size <= size - 1 ∧
  24 * lock_width size <= 10 * size ∧
  24 * lock_height size <= 8 * size ∧
  ∀ x y, rectangle_mask (lock_box size) x y = true →
         0 <= x < size ∧ 0 <= y < size.
Proof.
  intros Hsize.
  destruct (lock_box_bounds size Hsize) as (Hx & Hy & Hxw & Hyh).
  split; [exact Hx|]. split; [exact Hxw|]. split; [exact Hyh|].
  split; [rewrite lock_width_div by lia; apply Z.mul_div_le; lia|].
  split; [rewrite lock_height_div by lia; apply Z.mul_div_le; lia|].
  intros x y Hmask. exact (lock_box_in_canvas size x y Hsize Hmask).
Qed.

Lemma lock_body_within_canvas_witness :
  0 <= lock_x 24 ∧ lock_x 24 + lock_width 24 <= 23 ∧ lock_y 24 + lock_height 24 <= 23 ∧
  (0 <= 17 < 24 ∧ 0 <= 20 < 24).
Proof.
  destruct (lock_body_within_canvas 24) as (H1 & H2 & H3 & _ & _ & H4); [lia|].
  repeat split; try assumption; apply (H4 17 20); reflexivity.
Defined.

Lemma render_succeeds (math : math_module) (pil : imaging) (size : Z) :
  0 <= size → ∃ img, render math pil size = Ok img.
Proof. intros Hsize. eexists. apply render_ok. exact Hsize. Qed.

Lemma in_canvas (size x y : Z) :
  0 <= x < size → 0 <= y < size →
  (0 <=? x) && (x <? size) && (0 <=? y) && (y <? size) = true.
Proof.
  intros Hx Hy. rewrite !andb_true_iff, !Z.leb_le, !Z.ltb_lt. lia.
Qed.

(** Every pixel of the lock body is white in the finished image. *)
Lemma lock_body_white (math : math_module) (pil : imaging) (size : Z) (img : image) (x y : Z) :
  0 < size → render math pil size = Ok img →
  lock_x size <= x <= lock_x size + lock_width size →
  lock_y size <= y <= lock_y size + lock_height size →
  pixel_at img x y = Some white.
Proof.
  intros Hsize Himg Hx Hy.
  rewrite (pixel_at_render math pil size img x y) by (lia || assumption).
  assert (rectangle_mask (lock_box size) x y = true) as Hmask
    by (apply rectangle_mask_true; lia).
  destruct (lock_box_in_canvas size x y Hsize Hmask) as [Hx' Hy'].
  rewrite in_canvas by assumption.
  unfold covered. rewrite Hmask. reflexivity.
Qed.

(** C2.  For every positive size: [scale] is the exact ratio [size / 24];
    the lock body has width [floor (10 scale)] and height
    [floor (8 scale)]; its origin is [((size - width) // 2, size // 2)];
    and the rectangle from [(lock_x, lock_y)] to
    [(lock_x + width, lock_y + height)] is solid white (255,255,255,255)
    in the rendered image. *)
Theorem lock_body_geometry (math : math_module) (pil : imaging) (size : Z) :
  0 < size →
  (scale size == size # 24)%Q ∧
  (scale size * 24 == inject_Z size)%Q ∧
  lock_width size = Qfloor (10 * scale size) ∧
  lock_height size = Qfloor (8 * scale size) ∧
  lock_x size = (size - lock_width size) `div` 2 ∧
  lock_y size = size `div` 2 ∧
  ∃ img, render math pil size = Ok img ∧
    ∀ x y,
      lock_x size <= x <= lock_x size + lock_width size →
      lock_y size <= y <= lock_y size + lock_height size →
      pixel_at img x y = Some (255, 255, 255, 255).
Proof.
  intros Hsize.
  split; [unfold scale, Qeq; simpl; lia|].
  split; [unfold scale, Qeq; simpl; lia|].
  split; [apply int_nonneg, (scale_nonneg 10); lia|].
  split; [apply int_nonneg, (scale_nonneg 8); lia|].
  split; [reflexivity|]. split; [reflexivity|].
  destruct (render_succeeds math pil size ltac:(lia)) as [img Himg].
  exists img. split; [exact Himg|].
  intros x y Hx Hy. exact (lock_body_white math pil size img x y Hsize Himg Hx Hy).
Qed.

Lemma lock_body_geometry_witness :
  lock_width 48 = Qfloor (10 * scale 48) ∧
  ∃ img, render Reference.math Reference.pil 48 = Ok img ∧
         pixel_at img 20 30 = Some (255, 255, 255, 255).
Proof.
  destruct (lock_body_geometry Reference.math Reference.pil 48)
    as (_ & _ & Hw & _ & _ & _ & img & Himg & Hpix); [lia|].
  split; [exact Hw|]. exists img. split; [exact Himg|].
  apply Hpix; vm_compute; split; discriminate.
Defined.

(** C5.  For size 24 the scale is 1, the lock body has width 10, height 8 and
    origin (7, 12), and the pixel (10, 15) of the rendered image is opaque
    white, being inside the lock body. *)
Theorem size_24_lock_body (math : math_module) (pil : imaging) :
  (scale 24 == 1)%Q ∧
  lock_width 24 = 10 ∧ lock_height 24 = 8 ∧
  (lock_x 24, lock_y 24) = (7, 12) ∧
  rectangle_mask (lock_box 24) 10 15 = true ∧
  ∃ img, render math pil 24 = Ok img ∧
         pixel_at img 10 15 = Some (255, 255, 255, 255).
Proof.
  split; [reflexivity|]. split; [reflexivity|]. split; [reflexivity|].
  split; [reflexivity|]. split; [reflexivity|].
  destruct (render_succeeds math pil 24 ltac:(lia)) as [img Himg].
  exists img. split; [exact Himg|].
  apply (lock_body_white math pil 24 img 10 15); [lia|exact Himg| |];
    vm_compute; split; discriminate.
Qed.

(** C7.  For size 1 the renderer does not crash: the scale is about 0.042
    (exactly 1/24), width and height of the body are 0, the inner shackle
    radius is -2, the canvas is created, the rectangle is accepted, the
    nineteen lines are drawn, and a 1 by 1 RGBA image results. *)
Theorem size_1_renders (math : math_module) (pil : imaging) :
  (scale 1 == 1 # 24)%Q ∧ (41 # 1000 < scale 1 < 42 # 1000)%Q ∧
  lock_width 1 = 0 ∧ lock_height 1 = 0 ∧
  shackle_radius 1 = 0 ∧ shackle_radius 1 - 2 = -2 ∧
  lock_box 1 = (0, 0, 0, 0) ∧
  ∃ canvas body img,
    Image_new "RGBA" (1, 1) (59, 130, 246, 255) = Ok canvas ∧
    rectangle canvas (lock_box 1) (255, 255, 255, 255) = Ok body ∧
    render math pil 1 = Ok img ∧
    img = foldl
            (λ img angle,
               line pil img (shackle_segment math 1 angle) (255, 255, 255, 255) 1)
            body (range 180 361 10) ∧
    length (range 180 361 10) = 19%nat ∧
    im_mode img = "RGBA" ∧ im_size img = (1, 1).
Proof.
  split; [reflexivity|]. split; [split; reflexivity|].
  split; [reflexivity|]. split; [reflexivity|]. split; [reflexivity|].
  split; [reflexivity|]. split; [reflexivity|].
  eexists _, _, _.
  split; [reflexivity|]. split; [reflexivity|].
  split; [apply render_ok; lia|].
  split; [reflexivity|]. split; [reflexivity|].
  apply (render_mode_size math pil 1); [lia|]. apply render_ok; lia.
Qed.

(** C9.  For every positive size the image is rendered and every pixel of it
    is either the background blue (59,130,246,255) or opaque white
    (255,255,255,255). *)
Theorem two_colours (math : math_module) (pil : imaging) (size : Z) :
  0 < size →
  ∃ img, render math pil size = Ok img ∧
    (∀ x y c, pixel_at img x y = Some c →
              c = (59, 130, 246, 255) ∨ c = (255, 255, 255, 255)) ∧
    (∀ x y, 0 <= x < size → 0 <= y < size → is_Some (pixel_at img x y)).
Proof.
  intros Hsize.
  destruct (render_succeeds math pil size ltac:(lia)) as [img Himg].
  exists img. split; [exact Himg|]. split.
  - intros x y c.
    rewrite (pixel_at_render math pil size img x y) by (lia || assumption).
    destruct ((0 <=? x) && (x <? size) && (0 <=? y) && (y <? size)); [|discriminate].
    destruct (covered math pil size x y); intros [= <-]; [right|left]; reflexivity.
  - intros x y Hx Hy.
    rewrite (pixel_at_render math pil size img x y) by (lia || assumption).
    rewrite in_canvas by assumption. eexists. reflexivity.
Qed.

Lemma two_colours_witness :
  ∃ img, render Reference.math Reference.pil 16 = Ok img ∧
    (pixel_at img 8 5 = Some (59, 130, 246, 255) ∨
     pixel_at img 8 5 = Some (255, 255, 255, 255)).
Proof.
  destruct (two_colours Reference.math Reference.pil 16) as (img & Himg & Hcol & Hsome);
    [lia|].
  exists img. split; [exact Himg|].
  destruct (Hsome 8 5) as [c Hc]; [lia|lia|].
  rewrite Hc. destruct (Hcol 8 5 c Hc) as [-> | ->]; [left|right]; reflexivity.
Defined.

(** ** The shackle stays near its centre *)

Lemma int_mul_bound (z : Z) (q : Q) :
  (-1 <= q <= 1)%Q → Z.abs (int (inject_Z z * q)) <= Z.abs z.
Proof.
  destruct q as [n d]. unfold Qle, int. simpl. intros [Hlo Hhi].
  rewrite <- Z.quot_abs by lia.
  rewrite Z.quot_div_nonneg by lia.
  apply Z.div_le_upper_bound; [lia|].
  rewrite Z.abs_mul. change (Z.abs (Z.pos d)) with (Z.pos d).
  assert (Z.abs n <= Z.pos d) by lia. nia.
Qed.

Section Shackle.

Context (math : math_module) (pil : imaging).
Hypothesis trig : bounded_trig math.
Hypothesis loc : local_lines pil.

Lemma shackle_segment_near (size angle x1 y1 x2 y2 : Z) :
  shackle_segment math size angle = (x1, y1, x2, y2) →
  Z.abs (x1 - shackle_center_x size) <= Z.abs (shackle_radius size) ∧
  Z.abs (y1 - shackle_center_y size) <= Z.abs (shackle_radius size) ∧
  Z.abs (x2 - shackle_center_x size) <= Z.abs (shackle_radius size - 2) ∧
  Z.abs (y2 - shackle_center_y size) <= Z.abs (shackle_radius size - 2).
Proof.
  unfold shackle_segment. intros [= <- <- <- <-].
  set (a := radians math (inject_Z angle)).
  destruct (trig a) as [Hc Hs].
  pose proof (int_mul_bound (shackle_radius size) _ Hc).
  pose proof (int_mul_bound (shackle_radius size) _ Hs).
  pose proof (int_mul_bound (shackle_radius size - 2) _ Hc).
  pose proof (int_mul_bound (shackle_radius size - 2) _ Hs).
  lia.
Qed.

(** The distance from the centre beyond which no line can reach. *)
Lemma line_misses (size angle x y : Z) :
  let reach := Z.max (Z.abs (shackle_radius size)) (Z.abs (shackle_radius size - 2))
               + stroke_width size in
  reach < Z.abs (x - shackle_center_x size) ∨ reach < Z.abs (y - shackle_center_y size) →
  line_mask pil (shackle_segment math size angle) (stroke_width size) x y = false.
Proof.
  intros reach Hfar.
  destruct (shackle_segment math size angle) as [[[x1 y1] x2] y2] eqn:Hseg.
  destruct (shackle_segment_near size angle x1 y1 x2 y2 Hseg) as (H1 & H2 & H3 & H4).
  destruct (line_mask pil (x1, y1, x2, y2) (stroke_width size) x y) eqn:Hmask;
    [|reflexivity].
  apply loc in Hmask; [|unfold stroke_width; lia].
  subst reach. lia.
Qed.

Lemma not_covered (size x y : Z) :
  let reach := Z.max (Z.abs (shackle_radius size)) (Z.abs (shackle_radius size - 2))
               + stroke_width size in
  rectangle_mask (lock_box size) x y = false →
  reach < Z.abs (x - shackle_center_x size) ∨ reach < Z.abs (y - shackle_center_y size) →
  covered math pil size x y = false.
Proof.
  intros reach Hrect Hfar. unfold covered. rewrite Hrect, orb_false_l.
  generalize (range 180 361 10). intros angles.
  induction angles as [|a angles IH]; simpl; [reflexivity|].
  rewrite (line_misses size a x y Hfar). exact IH.
Qed.

Lemma background_pixel (size x y : Z) (img : image) :
  let reach := Z.max (Z.abs (shackle_radius size)) (Z.abs (shackle_radius size - 2))
               + stroke_width size in
  0 <= size → render math pil size = Ok img →
  0 <= x < size → 0 <= y < size →
  rectangle_mask (lock_box size) x y = false →
  reach < Z.abs (x - shackle_center_x size) ∨ reach < Z.abs (y - shackle_center_y size) →
  pixel_at img x y = Some background.
Proof.
  intros reach Hsize Himg Hx Hy Hrect Hfar.
  rewrite (pixel_at_render math pil size img x y) by assumption.
  rewrite in_canvas by assumption.
  rewrite (not_covered size x y Hrect Hfar). reflexivity.
Qed.

End Shackle.

(** ** The reference instances meet the assumptions *)

Lemma reference_trig_table_bounded :
  Forall (λ e, (-1 <= fst (snd e) <= 1)%Q ∧ (-1 <= snd (snd e) <= 1)%Q)
    Reference.trig_table.
Proof.
  unfold Reference.trig_table.
  repeat (apply Forall_cons; split;
          [unfold Qle; simpl; split; split; discriminate|]).
  apply Forall_nil. exact I.
Qed.

Lemma reference_assoc_in (a : Z) (table : list (Z * (Q * Q))) (v : Q * Q) :
  Reference.assoc a table = Some v → (a, v) ∈ table.
Proof.
  induction table as [|[a' v'] table IH]; simpl; [discriminate|].
  destruct (a =? a') eqn:Ha.
  - apply Z.eqb_eq in Ha. intros [= <-]. subst a'. apply list_elem_of_here.
  - intros Hv. apply list_elem_of_further, IH, Hv.
Qed.

Lemma reference_bounded_trig : bounded_trig Reference.math.
Proof.
  intros x. simpl. unfold Reference.cos, Reference.sin.
  destruct (Reference.assoc (Reference.degrees_of x) Reference.trig_table)
    as [v|] eqn:Hv; simpl.
  - apply reference_assoc_in in Hv.
    pose proof reference_trig_table_bounded as Hall.
    rewrite Forall_forall in Hall. apply (Hall _ Hv).
  - unfold Qle. simpl. lia.
Qed.

Lemma reference_local_lines : local_lines Reference.pil.
Proof.
  intros x1 y1 x2 y2 w x y Hw. simpl. unfold Reference.stroke_mask.
  rewrite !andb_true_iff, !Z.leb_le. lia.
Qed.

(** ** The corners *)

(** C4.  For every size in 16, 32, 48, 128 the image is rendered and its four
    corner pixels, (0,0) among them, have the background colour
    (59,130,246,255): neither the lock body nor any shackle segment covers
    a corner.  Cosine and sine are assumed to lie in [-1, 1] and a stroke
    to stay within its width of the bounding box of its end points. *)
Theorem corners_background (math : math_module) (pil : imaging) (size : Z) :
  bounded_trig math → local_lines pil →
  size ∈ sizes →
  ∃ img, render math pil size = Ok img ∧
    pixel_at img 0 0 = Some (59, 130, 246, 255) ∧
    pixel_at img (size - 1) 0 = Some (59, 130, 246, 255) ∧
    pixel_at img 0 (size - 1) = Some (59, 130, 246, 255) ∧
    pixel_at img (size - 1) (size - 1) = Some (59, 130, 246, 255) ∧
    covered math pil size 0 0 = false ∧
    covered math pil size (size - 1) 0 = false ∧
    covered math pil size 0 (size - 1) = false ∧
    covered math pil size (size - 1) (size - 1) = false.
Proof.
  intros trig loc Hsize.
  assert (0 <= size) as Hpos
    by (unfold sizes in Hsize;
        repeat (apply elem_of_cons in Hsize as [-> | Hsize]); try lia;
        apply elem_of_nil in Hsize; contradiction).
  destruct (render_succeeds math pil size Hpos) as [img Himg].
  exists img. split; [exact Himg|].
  unfold sizes in Hsize.
  repeat (apply elem_of_cons in Hsize as [-> | Hsize]);
    try (apply elem_of_nil in Hsize; contradiction).
  all: repeat split;
    match goal with
    | Hr : render _ _ ?s = Ok _ |- pixel_at _ ?x ?y = _ =>
        apply (background_pixel math pil trig loc s x y img);
        [lia | exact Hr | lia | lia | reflexivity | left; reflexivity]
    | |- covered _ _ ?s ?x ?y = false =>
        apply (not_covered math pil trig loc s x y);
        [reflexivity | left; reflexivity]
    end.
Qed.

Lemma corners_background_witness :
  ∃ img, render Reference.math Reference.pil 128 = Ok img ∧
         pixel_at img 0 0 = Some (59, 130, 246, 255) ∧
         pixel_at img 127 127 = Some (59, 130, 246, 255).
Proof.
  destruct (corners_background Reference.math Reference.pil 128
              reference_bounded_trig reference_local_lines)
    as (img & Himg & H00 & _ & _ & H11 & _).
  - unfold sizes. apply list_elem_of_further, list_elem_of_further,
      list_elem_of_further, list_elem_of_here.
  - exists img. split; [exact Himg|]. split; [exact H00|exact H11].
Defined.

(** ** The shackle *)

Lemma range_shackle : range 180 361 10 = (λ k, 180 + 10 * k) <$> seqZ 0 19.
Proof. reflexivity. Qed.

(** On a non-positive argument [int] is the ceiling, so on the offsets of
    the upper half circle it rounds up, towards the centre. *)
Lemma int_nonpos (x : Q) : (x <= 0)%Q → int x = Qceiling x.
Proof.
  destruct x as [n d]. unfold Qle, int, Qceiling, Qfloor. simpl. intros H.
  rewrite Z.mul_1_r in H.
  rewrite <- (Z.opp_involutive n) at 1.
  rewrite Z.quot_opp_l by lia. f_equal.
  apply Z.quot_div_nonneg; lia.
Qed.

(** [int] is the floor of the magnitude, with the sign restored. *)
Lemma int_truncates (x : Q) :
  int x = if Qle_bool 0 x then Qfloor x else - Qfloor (- x).
Proof.
  destruct (Qle_bool 0 x) eqn:Hx.
  - apply int_nonneg, Qle_bool_iff, Hx.
  - assert (x <= 0)%Q as Hneg.
    { destruct (Qlt_le_dec x 0) as [Hlt|Hge]; [apply Qlt_le_weak, Hlt|].
      apply Qle_bool_iff in Hge. congruence. }
    rewrite int_nonpos by exact Hneg. reflexivity.
Qed.

(** The end points the loop computes for the angle [180 + 10 k]. *)
Lemma shackle_segment_truncated (math : math_module) (size k : Z) :
  0 <= size →
  shackle_segment math size (180 + 10 * k) = truncated_segment math size k.
Proof.
  intros Hsize.
  unfold truncated_segment. cbv zeta. fold (scale size).
  rewrite <- (int_nonneg (4 * scale size)) by (apply (scale_nonneg 4); lia).
  rewrite <- (int_nonneg (2 * scale size)) by (apply (scale_nonneg 2); lia).
  reflexivity.
Qed.

Lemma existsb_fmap {A B : Type} (f : B → bool) (g : A → B) (l : list A) :
  existsb f (g <$> l) = existsb (λ x, f (g x)) l.
Proof. induction l as [|x l IH]; simpl; [reflexivity|]. f_equal. exact IH. Qed.

Lemma existsb_ext {A : Type} (f g : A → bool) (l : list A) :
  (∀ x, f x = g x) → existsb f l = existsb g l.
Proof.
  intros Hfg. induction l as [|x l IH]; simpl; [reflexivity|].
  rewrite Hfg, IH. reflexivity.
Qed.

(** The pixels the drawing calls cover, stroke by stroke. *)
Lemma covered_strokes (math : math_module) (pil : imaging) (size x y : Z) :
  0 <= size →
  covered math pil size x y
  = rectangle_mask (lock_box size) x y
    || existsb
         (λ k, line_mask pil (truncated_segment math size k)
                 (Z.max 1 (Qfloor (scale size))) x y)
         (seqZ 0 19).
Proof.
  intros Hsize. unfold covered. f_equal.
  rewrite range_shackle, existsb_fmap. apply existsb_ext. intros k.
  rewrite shackle_segment_truncated by exact Hsize.
  unfold stroke_width.
  rewrite (int_nonneg (scale size)) by (unfold scale, Qle; simpl; lia).
  reflexivity.
Qed.

(** C1, as stated, fails: with floors for the offsets the stroke at 190
    degrees of the size 24 icon would run from (8, 9) to (10, 9); the
    script draws it from (9, 10) to (11, 10), the vertical offset
    [4 sin a], about -0.69, being truncated to 0 where its floor is -1. *)
Lemma floor_offsets_refuted :
  shackle_segment Reference.math 24 190 = (9, 10, 11, 10) ∧
  floor_segment Reference.math 24 1 = (8, 9, 10, 9) ∧
  int (inject_Z (shackle_radius 24)
       * sin Reference.math (radians Reference.math (inject_Z 190))) = 0 ∧
  Qfloor (inject_Z (shackle_radius 24)
          * sin Reference.math (radians Reference.math (inject_Z 190))) = -1 ∧
  ¬ (∀ (math : math_module) (size k : Z),
       0 < size → 0 <= k < 19 →
       shackle_segment math size (180 + 10 * k) = floor_segment math size k).
Proof.
  split; [vm_compute; reflexivity|]. split; [vm_compute; reflexivity|].
  split; [vm_compute; reflexivity|]. split; [vm_compute; reflexivity|].
  intros Hall. specialize (Hall Reference.math 24 1 ltac:(lia) ltac:(lia)).
  vm_compute in Hall. discriminate.
Qed.

(** C1, amended.  For every positive size the shackle is drawn as exactly
    19 white strokes, one for each angle 180, 190, ..., 360.  For the
    [k]-th angle [a = 180 + 10 k] the loop joins the centre
    [(size // 2, lock_y - floor (2 scale))] displaced by
    [(int (r cos a), int (r sin a))] to the centre displaced by
    [(int ((r - 2) cos a), int ((r - 2) sin a))], where
    [r = floor (4 scale)] and [int] truncates towards zero (the floor of
    the magnitude with the sign restored, not the floor); the stroke
    width is [max 1 (floor scale)].  In the rendered image a pixel of the
    canvas is white exactly when the lock body or one of these 19 strokes
    covers it, and has the background colour otherwise. *)
Theorem shackle_truncated_segments (math : math_module) (pil : imaging) (size : Z) :
  0 < size →
  range 180 361 10
    = [180; 190; 200; 210; 220; 230; 240; 250; 260; 270;
       280; 290; 300; 310; 320; 330; 340; 350; 360] ∧
  (∀ k, 0 <= k < 19 →
     let r := Qfloor (4 * scale size) in
     let cx := size `div` 2 in
     let cy := lock_y size - Qfloor (2 * scale size) in
     let a := radians math (inject_Z (180 + 10 * k)) in
     shackle_segment math size (180 + 10 * k)
     = (cx + int (inject_Z r * cos math a), cy + int (inject_Z r * sin math a),
        cx + int (inject_Z (r - 2) * cos math a),
        cy + int (inject_Z (r - 2) * sin math a))) ∧
  (∀ x : Q, int x = if Qle_bool 0 x then Qfloor x else - Qfloor (- x)) ∧
  ∃ img, render math pil size = Ok img ∧
    ∀ x y, 0 <= x < size → 0 <= y < size →
      pixel_at img x y
      = Some (if rectangle_mask (lock_box size) x y
                 || existsb
                      (λ k, line_mask pil (truncated_segment math size k)
                              (Z.max 1 (Qfloor (scale size))) x y)
                      (seqZ 0 19)
              then (255, 255, 255, 255) else (59, 130, 246, 255)).
Proof.
  intros Hsize.
  split; [reflexivity|]. split.
  { intros k _ r cx cy a. rewrite shackle_segment_truncated by lia. reflexivity. }
  split; [exact int_truncates|].
  destruct (render_succeeds math pil size ltac:(lia)) as [img Himg].
  exists img. split; [exact Himg|]. intros x y Hx Hy.
  rewrite (pixel_at_render math pil size img x y) by (lia || assumption).
  rewrite in_canvas by assumption.
  rewrite covered_strokes by lia. reflexivity.
Qed.

Lemma shackle_truncated_segments_witness :
  shackle_segment Reference.math 24 190 = (9, 10, 11, 10) ∧
  ∃ img, render Reference.math Reference.pil 24 = Ok img ∧
         rectangle_mask (lock_box 24) 12 6 = false ∧
         pixel_at img 12 6 = Some (255, 255, 255, 255) ∧
         pixel_at img 12 11 = Some (59, 130, 246, 255).
Proof.
  destruct (shackle_truncated_segments Reference.math Reference.pil 24)
    as (_ & Hseg & _ & img & Himg & Hpix); [lia|].
  split.
  - change 190 with (180 + 10 * 1). rewrite (Hseg 1) by lia. vm_compute. reflexivity.
  - exists img. split; [exact Himg|]. split; [reflexivity|].
    rewrite (Hpix 12 6), (Hpix 12 11) by lia. split; vm_compute; reflexivity.
Defined.

(** ** Runs of the script *)

Section Runs.

Context (math : math_module) (pil : imaging) (env : environment).

(** One call of [create_icon]: the image depends on the size alone; the
    environment decides only whether it can be written. *)
Lemma create_icon_run (size : Z) (filename : string) (t : list event) :
  create_icon math pil env size filename t
  = match render math pil size with
    | Ok img =>
        if can_write env filename
        then (Ok (), t ++ [Save filename "PNG" img])
        else (Raise (OSError filename), t)
    | Raise e => (Raise e, t)
    end.
Proof.
  unfold create_icon, mbind, script_bind, lift, save.
  destruct (render math pil size); reflexivity.
Qed.

Lemma loop_body_run (size : Z) (t : list event) :
  loop_body math pil env size t
  = match render math pil size with
    | Ok img =>
        if can_write env ("extension/icons/icon" +:+ str size +:+ ".png")
        then (Ok (),
              t ++ [Save ("extension/icons/icon" +:+ str size +:+ ".png") "PNG" img;
                    Print ("Created icon" +:+ str size +:+ ".png")])
        else (Raise (OSError ("extension/icons/icon" +:+ str size +:+ ".png")), t)
    | Raise e => (Raise e, t)
    end.
Proof.
  unfold loop_body, mbind, script_bind. rewrite create_icon_run.
  destruct (render math pil size); [|reflexivity].
  destruct (can_write env _); [|reflexivity].
  unfold print. rewrite <- app_assoc. reflexivity.
Qed.

Lemma main_granted (t : list event) :
  granted env = true →
  ∃ i16 i32 i48 i128,
    render math pil 16 = Ok i16 ∧ render math pil 32 = Ok i32 ∧
    render math pil 48 = Ok i48 ∧ render math pil 128 = Ok i128 ∧
    main math pil env t = (Ok (), t ++ complete_run i16 i32 i48 i128).
Proof.
  unfold granted, icon_paths. rewrite andb_true_iff. simpl.
  rewrite !andb_true_iff. intros (Hmk & H16 & H32 & H48 & H128 & _).
  destruct (render_succeeds math pil 16 ltac:(lia)) as [i16 Hi16].
  destruct (render_succeeds math pil 32 ltac:(lia)) as [i32 Hi32].
  destruct (render_succeeds math pil 48 ltac:(lia)) as [i48 Hi48].
  destruct (render_succeeds math pil 128 ltac:(lia)) as [i128 Hi128].
  exists i16, i32, i48, i128. repeat (split; [assumption|]).
  unfold main, sizes, for_each, mbind, script_bind, makedirs.
  rewrite Hmk.
  rewrite loop_body_run, Hi16.
  change ("extension/icons/icon" +:+ str 16 +:+ ".png") with "extension/icons/icon16.png".
  rewrite H16. cbv beta iota.
  rewrite loop_body_run, Hi32.
  change ("extension/icons/icon" +:+ str 32 +:+ ".png") with "extension/icons/icon32.png".
  rewrite H32. cbv beta iota.
  rewrite loop_body_run, Hi48.
  change ("extension/icons/icon" +:+ str 48 +:+ ".png") with "extension/icons/icon48.png".
  rewrite H48. cbv beta iota.
  rewrite loop_body_run, Hi128.
  change ("extension/icons/icon" +:+ str 128 +:+ ".png") with "extension/icons/icon128.png".
  rewrite H128. cbv beta iota.
  unfold mret, script_ret, print, complete_run.
  rewrite <- !app_assoc. reflexivity.
Qed.

Lemma main_ok_granted (t : list event) :
  fst (main math pil env t) = Ok () → granted env = true.
Proof.
  unfold granted, icon_paths, forallb.
  unfold main, sizes, for_each, mbind, script_bind, makedirs.
  destruct (can_makedirs env "extension/icons"); [|discriminate].
  do 4 (rewrite loop_body_run;
        match goal with |- context [render math pil ?s] =>
          destruct (render math pil s); [|discriminate];
          let p := eval vm_compute in ("extension/icons/icon" +:+ str s +:+ ".png") in
          change ("extension/icons/icon" +:+ str s +:+ ".png") with p;
          destruct (can_write env p); [|discriminate]
        end;
        cbv beta iota).
  reflexivity.
Qed.


End Runs.

(** ** What a run writes and prints *)

Lemma render_domain (math : math_module) (pil : imaging) (size : Z) (img : image) (x y : Z) :
  0 <= size → render math pil size = Ok img →
  is_Some (pixel_at img x y) ↔ 0 <= x < size ∧ 0 <= y < size.
Proof.
  intros Hsize Himg.
  rewrite (pixel_at_render math pil size img x y) by assumption.
  destruct ((0 <=? x) && (x <? size) && (0 <=? y) && (y <? size)) eqn:Hin.
  - rewrite !andb_true_iff, !Z.leb_le, !Z.ltb_lt in Hin.
    split; [lia|]. intros _. eexists. reflexivity.
  - split; [intros [c Hc]; discriminate|].
    intros [Hx Hy]. rewrite in_canvas in Hin by assumption. discriminate.
Qed.

Lemma stdout_complete_run (i16 i32 i48 i128 : image) :
  stdout (complete_run i16 i32 i48 i128)
  = [ "Created icon16.png"; "Created icon32.png"; "Created icon48.png";
      "Created icon128.png"; "All icons created successfully!" ].
Proof. reflexivity. Qed.

Lemma saved_complete_run (i16 i32 i48 i128 : image) :
  saved (complete_run i16 i32 i48 i128)
  = [ ("extension/icons/icon16.png", "PNG", i16);
      ("extension/icons/icon32.png", "PNG", i32);
      ("extension/icons/icon48.png", "PNG", i48);
      ("extension/icons/icon128.png", "PNG", i128) ].
Proof. reflexivity. Qed.

(** C6.  A successful run writes exactly four files, in this order:
    extension/icons/icon16.png, icon32.png, icon48.png and icon128.png,
    each saved in the PNG format; the image written for size [s] is the
    one [create_icon] renders for [s], its mode is RGBA, its size is
    (s, s) and its pixels are exactly those with both coordinates in
    [0, s). *)
Theorem four_icons_written (math : math_module) (pil : imaging) (env : environment)
    (t : list event) :
  fst (main math pil env t) = Ok () →
  ∃ i16 i32 i48 i128,
    saved (snd (main math pil env t))
    = saved t ++ [ ("extension/icons/icon16.png", "PNG", i16);
                   ("extension/icons/icon32.png", "PNG", i32);
                   ("extension/icons/icon48.png", "PNG", i48);
                   ("extension/icons/icon128.png", "PNG", i128) ] ∧
    Forall
      (λ '(size, img),
         render math pil size = Ok img ∧
         im_mode img = "RGBA" ∧ im_size img = (size, size) ∧
         ∀ x y, is_Some (pixel_at img x y) ↔ 0 <= x < size ∧ 0 <= y < size)
      [ (16, i16); (32, i32); (48, i48); (128, i128) ].
Proof.
  intros Hok. apply main_ok_granted in Hok.
  destruct (main_granted math pil env t Hok)
    as (i16 & i32 & i48 & i128 & H16 & H32 & H48 & H128 & Hmain).
  exists i16, i32, i48, i128. rewrite Hmain. simpl snd. split.
  - unfold saved at 1. rewrite omap_app. fold (saved t).
    fold (saved (complete_run i16 i32 i48 i128)).
    rewrite saved_complete_run. reflexivity.
  - repeat (apply Forall_cons; split;
            [ match goal with |- render _ _ ?s = Ok ?i ∧ _ =>
                assert (render math pil s = Ok i) as Hr by assumption;
                destruct (render_mode_size math pil s i ltac:(lia) Hr) as [Hm Hs];
                split; [exact Hr|]; split; [exact Hm|]; split; [exact Hs|];
                intros x y; apply (render_domain math pil s i x y); [lia|exact Hr]
              end |]).
    apply Forall_nil. exact I.
Qed.

Lemma four_icons_written_witness :
  ∃ i16 i32 i48 i128,
    saved (snd (main Reference.math Reference.pil Reference.permissive []))
    = [ ("extension/icons/icon16.png", "PNG", i16);
        ("extension/icons/icon32.png", "PNG", i32);
        ("extension/icons/icon48.png", "PNG", i48);
        ("extension/icons/icon128.png", "PNG", i128) ].
Proof.
  destruct (four_icons_written Reference.math Reference.pil Reference.permissive [])
    as (i16 & i32 & i48 & i128 & Hsaved & _).
  - destruct (main_granted Reference.math Reference.pil Reference.permissive [])
      as (j16 & j32 & j48 & j128 & _ & _ & _ & _ & Hmain); [reflexivity|].
    rewrite Hmain. reflexivity.
  - exists i16, i32, i48, i128. exact Hsaved.
Defined.

(** C8.  On a successful run the sizes are processed in the order 16, 32, 48,
    128: after the directory is made, each icon is saved and then its
    line "Created icon{size}.png" is printed, before the next size is
    begun; the line "All icons created successfully!" comes last.
    Standard output receives exactly these five lines, in this order. *)
Theorem five_lines_printed (math : math_module) (pil : imaging) (env : environment)
    (t : list event) :
  fst (main math pil env t) = Ok () →
  ∃ i16 i32 i48 i128,
    snd (main math pil env t)
    = t ++ [ Makedirs "extension/icons";
             Save "extension/icons/icon16.png" "PNG" i16; Print "Created icon16.png";
             Save "extension/icons/icon32.png" "PNG" i32; Print "Created icon32.png";
             Save "extension/icons/icon48.png" "PNG" i48; Print "Created icon48.png";
             Save "extension/icons/icon128.png" "PNG" i128; Print "Created icon128.png";
             Print "All icons created successfully!" ] ∧
    stdout (snd (main math pil env t))
    = stdout t ++ [ "Created icon16.png"; "Created icon32.png"; "Created icon48.png";
                    "Created icon128.png"; "All icons created successfully!" ].
Proof.
  intros Hok. apply main_ok_granted in Hok.
  destruct (main_granted math pil env t Hok)
    as (i16 & i32 & i48 & i128 & _ & _ & _ & _ & Hmain).
  exists i16, i32, i48, i128. rewrite Hmain. simpl snd. split; [reflexivity|].
  unfold stdout at 1. rewrite omap_app. fold (stdout t).
  fold (stdout (complete_run i16 i32 i48 i128)).
  rewrite stdout_complete_run. reflexivity.
Qed.

Lemma five_lines_printed_witness :
  stdout (snd (main Reference.math Reference.pil Reference.permissive []))
  = [ "Created icon16.png"; "Created icon32.png"; "Created icon48.png";
      "Created icon128.png"; "All icons created successfully!" ].
Proof.
  destruct (five_lines_printed Reference.math Reference.pil Reference.permissive [])
    as (i16 & i32 & i48 & i128 & _ & Hout).
  - destruct (main_granted Reference.math Reference.pil Reference.permissive [])
      as (j16 & j32 & j48 & j128 & _ & _ & _ & _ & Hmain); [reflexivity|].
    rewrite Hmain. reflexivity.
  - exact Hout.
Defined.

(** A write that is refused stops the run where it stands: the icons
    already written stay, nothing further is printed. *)
Lemma main_stops_at_refusal (math : math_module) (pil : imaging) (env : environment)
    (t : list event) :
  can_makedirs env "extension/icons" = true →
  can_write env "extension/icons/icon16.png" = true →
  can_write env "extension/icons/icon32.png" = false →
  ∃ i16, render math pil 16 = Ok i16 ∧
    main math pil env t
    = (Raise (OSError "extension/icons/icon32.png"),
       t ++ [ Makedirs "extension/icons";
              Save "extension/icons/icon16.png" "PNG" i16; Print "Created icon16.png" ]).
Proof.
  intros Hmk H16 H32.
  destruct (render_succeeds math pil 16 ltac:(lia)) as [i16 Hi16].
  destruct (render_succeeds math pil 32 ltac:(lia)) as [i32 Hi32].
  exists i16. split; [exact Hi16|].
  unfold main, sizes, for_each, mbind, script_bind, makedirs.
  rewrite Hmk.
  rewrite loop_body_run, Hi16.
  change ("extension/icons/icon" +:+ str 16 +:+ ".png") with "extension/icons/icon16.png".
  rewrite H16. cbv beta iota.
  rewrite loop_body_run, Hi32.
  change ("extension/icons/icon" +:+ str 32 +:+ ".png") with "extension/icons/icon32.png".
  rewrite H32. rewrite <- !app_assoc. reflexivity.
Qed.

(** ** Binary64 evaluation *)

(** The arguments of the table are the radian measures the script computes,
    and the reference value of pi is the binary64 one. *)
Lemma trig_table_arguments :
  Forall
    (λ e, PrimFloat.eqb (Binary64.radians (Binary64.of_int (Binary64.degrees e)))
            (Binary64.argument e) = true)
    Binary64.trig_table.
Proof.
  unfold Binary64.trig_table.
  repeat (apply Forall_cons; split; [vm_compute; reflexivity|]).
  apply Forall_nil. exact I.
Qed.

Lemma reference_pi : (Reference.pi == Binary64.to_Q Binary64.pi)%Q.
Proof. vm_compute. reflexivity. Qed.

Lemma binary64_agrees_upto_256 : forallb binary64_agrees (seqZ 1 256) = true.
Proof. vm_compute. reflexivity. Qed.

(** X9.  For every size from 1 to 256 the interpreter's double precision
    arithmetic computes the same body, centre, radius, stroke width and
    segment end points as the exact model with the reference cosine and
    sine, and no [int()] meets an infinity or a NaN. *)
Theorem binary64_exact (size : Z) :
  1 <= size <= 256 →
  Binary64.lock_width size = Some (lock_width size) ∧
  Binary64.lock_height size = Some (lock_height size) ∧
  Binary64.shackle_center_y size = Some (shackle_center_y size) ∧
  Binary64.shackle_radius size = Some (shackle_radius size) ∧
  Binary64.stroke_width size = Some (stroke_width size) ∧
  ∀ angle, angle ∈ range 180 361 10 →
    Binary64.shackle_segment size angle
    = Some (shackle_segment Reference.math size angle).
Proof.
  intros Hsize.
  pose proof binary64_agrees_upto_256 as Hall.
  rewrite forallb_forall in Hall.
  assert (binary64_agrees size = true) as Hagree.
  { apply Hall, list_elem_of_In, elem_of_seqZ. lia. }
  unfold binary64_agrees in Hagree.
  rewrite !andb_true_iff, !bool_decide_eq_true, forallb_forall in Hagree.
  destruct Hagree as (((((Hw & Hh) & Hy) & Hr) & Hs) & Hseg).
  repeat (split; [assumption|]).
  intros angle Hangle. apply list_elem_of_In in Hangle.
  apply Hseg in Hangle. apply bool_decide_eq_true in Hangle. exact Hangle.
Qed.

Lemma binary64_exact_witness :
  Binary64.lock_width 128 = Some (lock_width 128) ∧
  Binary64.shackle_segment 128 240 = Some (shackle_segment Reference.math 128 240).
Proof.
  destruct (binary64_exact 128) as (Hw & _ & _ & _ & _ & Hseg); [lia|].
  split; [exact Hw|]. apply Hseg. unfold range. simpl.
  repeat (first [apply list_elem_of_here | apply list_elem_of_further]).
Defined.

(** * Further properties of the script *)

(** ** Runs under any environment *)



(** ** The files a run leaves *)

Lemma file_system_app (t u : list event) :
  file_system (t ++ u) = foldl write_file (file_system t) u.
Proof. unfold file_system. apply foldl_app. Qed.

Lemma write_complete_run (fs : gmap string node) (i16 i32 i48 i128 : image) :
  foldl write_file fs (complete_run i16 i32 i48 i128)
  = <["extension/icons/icon128.png" := File "PNG" i128]>
      (<["extension/icons/icon48.png" := File "PNG" i48]>
         (<["extension/icons/icon32.png" := File "PNG" i32]>
            (<["extension/icons/icon16.png" := File "PNG" i16]>
               (<["extension" := Dir]> (<["extension/icons" := Dir]> fs))))).
Proof. reflexivity. Qed.

(** X2.  A run that is granted every request leaves [extension] and
    [extension/icons] directories and each of the four icon paths a PNG
    file holding the image rendered for its size, whatever those paths
    held before; every other path holds what it held. *)
Theorem run_overwrites_icons (math : math_module) (pil : imaging) (env : environment)
    (t : list event) :
  granted env = true →
  ∃ i16 i32 i48 i128,
    render math pil 16 = Ok i16 ∧ render math pil 32 = Ok i32 ∧
    render math pil 48 = Ok i48 ∧ render math pil 128 = Ok i128 ∧
    let fs := file_system (snd (main math pil env t)) in
    fs !! "extension" = Some Dir ∧
    fs !! "extension/icons" = Some Dir ∧
    fs !! "extension/icons/icon16.png" = Some (File "PNG" i16) ∧
    fs !! "extension/icons/icon32.png" = Some (File "PNG" i32) ∧
    fs !! "extension/icons/icon48.png" = Some (File "PNG" i48) ∧
    fs !! "extension/icons/icon128.png" = Some (File "PNG" i128) ∧
    ∀ path, path ∉ "extension" :: "extension/icons" :: icon_paths →
            fs !! path = file_system t !! path.
Proof.
  intros Hgranted.
  destruct (main_granted math pil env t Hgranted)
    as (i16 & i32 & i48 & i128 & H16 & H32 & H48 & H128 & Hmain).
  exists i16, i32, i48, i128. repeat (split; [assumption|]).
  rewrite Hmain. simpl snd. rewrite file_system_app, write_complete_run.
  cbv zeta. repeat split.
  1-6: rewrite !lookup_insert; repeat case_decide; done.
  intros path Hpath. unfold icon_paths in Hpath.
  rewrite !lookup_insert. repeat case_decide; try done; set_solver.
Qed.

Lemma run_overwrites_icons_witness :
  ∃ img, render Reference.math Reference.pil 16 = Ok img ∧
    let fs :=
      file_system
        (snd (main Reference.math Reference.pil Reference.permissive
                [Save "extension/icons/icon16.png" "JPEG" (Image "RGB" (0, 0) []);
                 Save "notes.txt" "TXT" (Image "L" (0, 0) [])])) in
    fs !! "extension/icons" = Some Dir ∧
    fs !! "extension/icons/icon16.png" = Some (File "PNG" img) ∧
    fs !! "notes.txt" = Some (File "TXT" (Image "L" (0, 0) [])).
Proof.
  destruct (run_overwrites_icons Reference.math Reference.pil Reference.permissive
              [Save "extension/icons/icon16.png" "JPEG" (Image "RGB" (0, 0) []);
               Save "notes.txt" "TXT" (Image "L" (0, 0) [])])
    as (i16 & _ & _ & _ & H16 & _ & _ & _ & _ & Hdir & Hfs & _ & _ & _ & Hother);
    [reflexivity|].
  exists i16. split; [exact H16|]. cbv zeta. split; [exact Hdir|]. split; [exact Hfs|].
  rewrite Hother; [reflexivity|]. unfold icon_paths.
  apply (bool_decide_unpack _). vm_compute. exact I.
Defined.



(** ** Sizes the canvas cannot have *)

(** X4.  A negative size is rejected before anything is drawn:
    [create_icon] raises the [ValueError] of [Image.new], saves no file
    and leaves the trace as it was, whatever the environment. *)
Theorem negative_size_rejected (math : math_module) (pil : imaging) (env : environment)
    (size : Z) (filename : string) (t : list event) :
  size < 0 →
  render math pil size = Raise (ValueError "Width and height must be >= 0") ∧
  create_icon math pil env size filename t
  = (Raise (ValueError "Width and height must be >= 0"), t).
Proof.
  intros Hsize.
  assert (render math pil size = Raise (ValueError "Width and height must be >= 0"))
    as Hrender.
  { unfold render, Image_new.
    destruct (size <? 0) eqn:Hneg; [reflexivity|]. apply Z.ltb_ge in Hneg. lia. }
  split; [exact Hrender|]. rewrite create_icon_run, Hrender. reflexivity.
Qed.

Lemma negative_size_rejected_witness :
  create_icon Reference.math Reference.pil Reference.permissive (-24) "icon.png" []
  = (Raise (ValueError "Width and height must be >= 0"), []).
Proof.
  apply (negative_size_rejected Reference.math Reference.pil Reference.permissive (-24)).
  lia.
Defined.

(** ** The order of the strokes *)

Lemma paint_comm (m1 m2 : Z → Z → bool) (fill : rgba) (img : image) :
  paint m1 fill (paint m2 fill img) = paint m2 fill (paint m1 fill img).
Proof.
  unfold paint. simpl. f_equal.
  apply list_eq. intros j. rewrite !list_lookup_imap.
  destruct (im_rows img !! j) as [row|]; simpl; [|reflexivity]. f_equal.
  apply list_eq. intros i. rewrite !list_lookup_imap.
  destruct (row !! i) as [p|]; simpl; [|reflexivity].
  destruct (m1 (Z.of_nat i) (Z.of_nat j)), (m2 (Z.of_nat i) (Z.of_nat j)); reflexivity.
Qed.

Lemma foldl_permutation {A B : Type} (f : A → B → A) (l l' : list B) :
  (∀ a x y, f (f a x) y = f (f a y) x) →
  l ≡ₚ l' → ∀ a, foldl f a l = foldl f a l'.
Proof.
  intros Hcomm Hperm. induction Hperm as [|x l l' _ IH|x y l|l l' l'' _ IH1 _ IH2];
    intros a; simpl.
  - reflexivity.
  - apply IH.
  - rewrite Hcomm. reflexivity.
  - rewrite IH1. apply IH2.
Qed.

(** X5.  The strokes of the shackle may be drawn in any order: all have the
    same colour, so visiting the nineteen angles in any permutation gives
    the very image [create_icon] renders. *)
Theorem stroke_order_immaterial (math : math_module) (pil : imaging) (size : Z)
    (img : image) (angles : list Z) :
  render math pil size = Ok img →
  angles ≡ₚ range 180 361 10 →
  ∃ canvas body,
    Image_new "RGBA" (size, size) (59, 130, 246, 255) = Ok canvas ∧
    rectangle canvas (lock_box size) (255, 255, 255, 255) = Ok body ∧
    foldl
      (λ img angle,
         line pil img (shackle_segment math size angle) (255, 255, 255, 255)
           (Z.max 1 (int (scale size))))
      body angles
    = img.
Proof.
  intros Himg Hperm.
  assert (0 <= size) as Hsize.
  { destruct (Z.lt_ge_cases size 0) as [Hneg|Hpos]; [|exact Hpos].
    unfold render, Image_new in Himg.
    destruct (size <? 0) eqn:E; [discriminate|]. apply Z.ltb_ge in E. lia. }
  rewrite render_ok in Himg by exact Hsize. apply Ok_inj in Himg.
  pose proof (lock_width_nonneg size Hsize).
  pose proof (lock_height_nonneg size Hsize).
  eexists _, _. split; [apply Image_new_ok; lia|].
  split; [unfold lock_box; apply rectangle_ok; lia|].
  rewrite <- Himg. apply foldl_permutation; [|exact Hperm].
  intros a x y. unfold line. apply paint_comm.
Qed.

Lemma stroke_order_immaterial_witness :
  ∃ img, render Reference.math Reference.pil 16 = Ok img ∧
    ∃ canvas body,
      Image_new "RGBA" (16, 16) (59, 130, 246, 255) = Ok canvas ∧
      rectangle canvas (lock_box 16) (255, 255, 255, 255) = Ok body ∧
      foldl
        (λ img angle,
           line Reference.pil img (shackle_segment Reference.math 16 angle)
             (255, 255, 255, 255) (Z.max 1 (int (scale 16))))
        body (reverse (range 180 361 10))
      = img.
Proof.
  destruct (render_succeeds Reference.math Reference.pil 16 ltac:(lia)) as [img Himg].
  exists img. split; [exact Himg|].
  apply (stroke_order_immaterial Reference.math Reference.pil 16 img
           (reverse (range 180 361 10)) Himg).
  apply reverse_Permutation.
Defined.

(** ** Proportions *)

(** The locals of [create_icon] as integer quotients. *)
Lemma locals_div (size : Z) :
  0 <= size →
  lock_width size = (10 * size) `div` 24 ∧
  lock_height size = (8 * size) `div` 24 ∧
  lock_x size = (size - (10 * size) `div` 24) `div` 2 ∧
  lock_y size = size `div` 2 ∧
  shackle_center_x size = size `div` 2 ∧
  shackle_center_y size = size `div` 2 - (2 * size) `div` 24 ∧
  shackle_radius size = (4 * size) `div` 24 ∧
  stroke_width size = Z.max 1 (size `div` 24).
Proof.
  intros Hsize. unfold lock_x, stroke_width.
  rewrite lock_width_div, lock_height_div, shackle_center_y_div, shackle_radius_div,
    int_scale1 by assumption.
  rewrite Z.quot_div_nonneg by lia. repeat split; reflexivity.
Qed.

(** X6.  The lock is centred: the body's left margin equals its right
    margin or exceeds it by one pixel, the shackle's centre lies over the
    body, between its left and right edge and not below its top edge, and
    the body is at least as wide as it is high. *)
Theorem lock_is_centred (size : Z) :
  0 < size →
  0 <= lock_x size - (size - 1 - (lock_x size + lock_width size)) <= 1 ∧
  lock_x size <= shackle_center_x size <= lock_x size + lock_width size ∧
  shackle_center_y size <= lock_y size ∧
  lock_height size <= lock_width size.
Proof.
  intros Hsize.
  destruct (locals_div size ltac:(lia)) as (Hw & Hh & Hx & Hy & Hcx & Hcy & _ & _).
  rewrite Hw, Hh, Hx, Hy, Hcx, Hcy.
  Z.to_euclidean_division_equations. lia.
Qed.

Lemma lock_is_centred_witness :
  0 <= lock_x 24 - (23 - (lock_x 24 + lock_width 24)) <= 1 ∧
  lock_x 24 <= shackle_center_x 24 <= lock_x 24 + lock_width 24.
Proof.
  destruct (lock_is_centred 24) as (H1 & H2 & _); [lia|].
  split; [exact H1|exact H2].
Defined.

(** X7.  From size 12 on the inner radius is not negative and, cosine and
    sine lying in [-1, 1], both end points of every stroke are pixels of
    the canvas, so no stroke starts or ends outside the image; below
    size 12 the inner radius [shackle_radius - 2] is negative. *)
Theorem strokes_end_in_canvas (math : math_module) (size angle : Z) :
  bounded_trig math →
  0 < size →
  (shackle_radius size - 2 < 0 ↔ size < 12) ∧
  (12 <= size →
   ∃ x1 y1 x2 y2,
     shackle_segment math size angle = (x1, y1, x2, y2) ∧
     0 <= x1 < size ∧ 0 <= y1 < size ∧ 0 <= x2 < size ∧ 0 <= y2 < size).
Proof.
  intros trig Hsize.
  destruct (locals_div size ltac:(lia)) as (_ & _ & _ & _ & Hcx & Hcy & Hr & _).
  split.
  - rewrite Hr. Z.to_euclidean_division_equations. lia.
  - intros Hbig.
    destruct (shackle_segment math size angle) as [[[x1 y1] x2] y2] eqn:Hseg.
    exists x1, y1, x2, y2. split; [reflexivity|].
    pose proof (shackle_segment_near math trig size angle x1 y1 x2 y2 Hseg) as Hnear.
    rewrite Hcx, Hcy, Hr in Hnear.
    Z.to_euclidean_division_equations. lia.
Qed.

Lemma strokes_end_in_canvas_witness :
  ∃ x1 y1 x2 y2,
    shackle_segment Reference.math 48 240 = (x1, y1, x2, y2) ∧
    0 <= x1 < 48 ∧ 0 <= y1 < 48 ∧ 0 <= x2 < 48 ∧ 0 <= y2 < 48.
Proof.
  destruct (strokes_end_in_canvas Reference.math 48 240 reference_bounded_trig)
    as [_ Hin]; [lia|].
  apply Hin. lia.
Defined.

(** X8.  From size 7 on the four corners of every icon keep the
    background colour, not only at the four sizes the script uses: the
    lock body and every stroke stay clear of them.  Cosine and sine are
    assumed to lie in [-1, 1] and a stroke to stay within its width of
    the bounding box of its end points. *)
Theorem corners_background_from_7 (math : math_module) (pil : imaging) (size : Z) :
  bounded_trig math → local_lines pil →
  7 <= size →
  ∃ img, render math pil size = Ok img ∧
    pixel_at img 0 0 = Some (59, 130, 246, 255) ∧
    pixel_at img (size - 1) 0 = Some (59, 130, 246, 255) ∧
    pixel_at img 0 (size - 1) = Some (59, 130, 246, 255) ∧
    pixel_at img (size - 1) (size - 1) = Some (59, 130, 246, 255).
Proof.
  intros trig loc Hsize.
  destruct (render_succeeds math pil size ltac:(lia)) as [img Himg].
  exists img. split; [exact Himg|].
  assert (∀ x y, (x = 0 ∨ x = size - 1) → (y = 0 ∨ y = size - 1) →
                 pixel_at img x y = Some background) as Hcorner.
  { intros x y Hx Hy.
    apply (background_pixel math pil trig loc size x y img);
      [lia | exact Himg | lia | lia | |].
    - destruct (rectangle_mask (lock_box size) x y) eqn:Hmask; [|reflexivity].
      unfold lock_box in Hmask. apply rectangle_mask_true in Hmask.
      destruct (locals_div size ltac:(lia)) as (Hw & Hh & Hlx & Hly & _).
      rewrite Hw, Hh, Hlx, Hly in Hmask.
      exfalso. revert Hmask. Z.to_euclidean_division_equations. lia.
    - destruct (locals_div size ltac:(lia)) as (_ & _ & _ & _ & Hcx & Hcy & Hr & Hs).
      rewrite Hcx, Hcy, Hr, Hs.
      Z.to_euclidean_division_equations. lia. }
  repeat split; apply Hcorner; lia.
Qed.

Lemma corners_background_from_7_witness :
  ∃ img, render Reference.math Reference.pil 7 = Ok img ∧
         pixel_at img 6 6 = Some (59, 130, 246, 255).
Proof.
  destruct (corners_background_from_7 Reference.math Reference.pil 7
              reference_bounded_trig reference_local_lines)
    as (img & Himg & _ & _ & _ & H11); [lia|].
  exists img. split; [exact Himg|exact H11].
Defined.

(** ** Where the white can be *)

(** X12.  White is confined to the lock body and to a square around the
    shackle's centre whose half side is the larger of the outer and the
    inner radius plus the stroke width: any other pixel of the canvas
    keeps the background colour.  Cosine and sine are assumed to lie in
    [-1, 1] and a stroke to stay within its width of the bounding box of
    its end points. *)
Theorem white_confined (math : math_module) (pil : imaging) (size x y : Z)
    (img : image) :
  bounded_trig math → local_lines pil →
  0 <= size → render math pil size = Ok img →
  pixel_at img x y = Some (255, 255, 255, 255) →
  (lock_x size <= x <= lock_x size + lock_width size ∧
   lock_y size <= y <= lock_y size + lock_height size) ∨
  (Z.abs (x - shackle_center_x size)
   <= Z.max (Z.abs (shackle_radius size)) (Z.abs (shackle_radius size - 2))
      + stroke_width size ∧
   Z.abs (y - shackle_center_y size)
   <= Z.max (Z.abs (shackle_radius size)) (Z.abs (shackle_radius size - 2))
      + stroke_width size).
Proof.
  intros trig loc Hsize Himg Hwhite.
  destruct (rectangle_mask (lock_box size) x y) eqn:Hmask.
  { left. unfold lock_box in Hmask. apply rectangle_mask_true in Hmask. exact Hmask. }
  right.
  assert (is_Some (pixel_at img x y)) as Hin by (rewrite Hwhite; eexists; reflexivity).
  apply (render_domain math pil size img x y Hsize Himg) in Hin. destruct Hin as [Hx Hy].
  set (reach := Z.max (Z.abs (shackle_radius size)) (Z.abs (shackle_radius size - 2))
                + stroke_width size).
  destruct (Z_le_gt_dec (Z.abs (x - shackle_center_x size)) reach) as [Hnx|Hfx];
    destruct (Z_le_gt_dec (Z.abs (y - shackle_center_y size)) reach) as [Hny|Hfy];
    try (split; assumption).
  all: exfalso;
    rewrite (background_pixel math pil trig loc size x y img Hsize Himg Hx Hy Hmask)
      in Hwhite by (fold reach; lia);
    discriminate.
Qed.

Lemma white_confined_witness :
  ∃ img, render Reference.math Reference.pil 24 = Ok img ∧
         pixel_at img 12 6 = Some (255, 255, 255, 255) ∧
         Z.abs (6 - shackle_center_y 24) <= 5.
Proof.
  destruct (render_succeeds Reference.math Reference.pil 24 ltac:(lia)) as [img Himg].
  assert (pixel_at img 12 6 = Some (255, 255, 255, 255)) as Hwhite.
  { rewrite (pixel_at_render Reference.math Reference.pil 24 img 12 6) by (lia || assumption).
    vm_compute. reflexivity. }
  exists img. split; [exact Himg|]. split; [exact Hwhite|].
  destruct (white_confined Reference.math Reference.pil 24 12 6 img
              reference_bounded_trig reference_local_lines ltac:(lia) Himg Hwhite)
    as [[_ Hy]|[_ Hy]].
  - vm_compute in Hy. destruct Hy as [Hy _]. exfalso. apply Hy. reflexivity.
  - exact Hy.
Defined.
